(** * rtreego/geom.go: points, rectangles and the nearest-neighbour bounds

    A shallow embedding of [geom.go], in two parts.

    The first part models the scalar type [float64] by the exact rationals
    [Q]: comparisons and the four arithmetic operations are those of the
    ordered field, and [math.MaxFloat64] is the rational number it denotes.
    It carries the facts about order: containment, overlap, the corners that
    [enlarge], [boundingBox], [NewRect] and [ToRect] choose, and the
    inequalities between bounds that rounding to nearest preserves.
    Equality of scalars there is [Qeq] (written [==]).

    The second part, [Binary64], embeds the functions whose results depend
    on rounding once more, operation for operation, on the binary64 numbers
    of the kernel.  It carries the facts about the values that [minDist],
    [minMaxDist] and [margin] return.

    The array type [[Dim]float64] is a list of scalars; a value is well
    formed when its length is [Dim].  The constant [Dim] is declared in
    another file of the package and is a parameter here.  Loops over
    [range p] or [i := 0; i < Dim; i++] run over [seq 0 Dim]. *)

From Stdlib Require Import QArith Qminmax List Bool Arith Lia Lqa.
From Stdlib Require PrimFloat.
Import ListNotations.
Open Scope Q_scope.

(** ** Scalars *)

(** The comparison operators of Go on [float64]. *)
Definition fle (x y : Q) : bool := Qle_bool x y.
Definition flt (x y : Q) : bool := negb (Qle_bool y x).
Definition fge (x y : Q) : bool := fle y x.
Definition fgt (x y : Q) : bool := flt y x.

(** [math.MaxFloat64] = 2^1023 * (2 - 2^-52). *)
Definition MaxFloat64 : Q := inject_Z (2 ^ 1024 - 2 ^ 971).

(** ** Arrays *)

(** [type Point [Dim]float64] *)
Definition Point : Type := list Q.

(** [p[i]] *)
Definition idx (p : Point) (i : nat) : Q := nth i p 0.

(** [p[i] = v] on an array held by value. *)
Fixpoint upd (p : Point) (i : nat) (v : Q) : Point :=
  match p, i with
  | [], _ => []
  | _ :: t, O => v :: t
  | x :: t, S j => x :: upd t j v
  end.

(** The sum of [f i] over the indices [i] of [l]. *)
Fixpoint sumr (f : nat -> Q) (l : list nat) : Q :=
  match l with
  | [] => 0
  | i :: t => f i + sumr f t
  end.

(** [type Rect struct { P, Q Point }]; the fields are [rP] and [rQ] here,
    since [Q] is the type of scalars. *)
Record Rect : Type := mkRect { rP : Point; rQ : Point }.

(** [type DistError float64] *)
Definition DistError : Type := Q.

Section Geom.

Variable Dim : nat.

Definition wf_point (p : Point) : Prop := length p = Dim.
Definition wf_rect (r : Rect) : Prop := wf_point (rP r) /\ wf_point (rQ r).

(** The invariant stated on [Rect]: [P[i] <= Q[i]] for every [i]. *)
Definition rect_ok (r : Rect) : bool :=
  forallb (fun i => fle (idx (rP r) i) (idx (rQ r) i)) (seq 0 Dim).

(** The zero value of [Point]. *)
Definition zeroPoint : Point := repeat 0 Dim.

(** [func (p Point) minDist(r *Rect) float64] *)
Definition minDist (p : Point) (r : Rect) : Q :=
  fold_left
    (fun sum i =>
       let pi := idx p i in
       if flt pi (idx (rP r) i) then
         let d := pi - idx (rP r) i in sum + d * d
       else if fgt pi (idx (rQ r) i) then
         let d := pi - idx (rQ r) i in sum + d * d
       else sum + 0)
    (seq 0 Dim) 0.

(** The closures [rm] and [rM] of [minMaxDist]. *)
Definition rm (p : Point) (r : Rect) (k : nat) : Q :=
  if fle (idx p k) ((idx (rP r) k + idx (rQ r) k) / 2) then idx (rP r) k
  else idx (rQ r) k.

Definition rM (p : Point) (r : Rect) (k : nat) : Q :=
  if fge (idx p k) ((idx (rP r) k + idx (rQ r) k) / 2) then idx (rP r) k
  else idx (rQ r) k.

(** The first loop of [minMaxDist]: [S = sum (p[i] - rM(i))^2]. *)
Definition minMaxDist_S (p : Point) (r : Rect) : Q :=
  fold_left (fun S i => let d := idx p i - rM p r i in S + d * d) (seq 0 Dim) 0.

(** [func (p Point) minMaxDist(r *Rect) float64] *)
Definition minMaxDist (p : Point) (r : Rect) : Q :=
  let S := minMaxDist_S p r in
  fold_left
    (fun min k =>
       let d1 := idx p k - rM p r k in
       let d2 := idx p k - rm p r k in
       let d := S - d1 * d1 + d2 * d2 in
       if flt d min then d else min)
    (seq 0 Dim) MaxFloat64.

(** The loop of [NewRect]; it leaves by [return r, DistError(l)] at the first
    length that is not positive.  [range r.Q] ranges over a copy of the
    array, so [l] is the length as it was passed. *)
Fixpoint NewRect_loop (lengths : Point) (ks : list nat) (r : Rect)
  : Rect * option DistError :=
  match ks with
  | [] => (r, None)
  | i :: ks' =>
      let l := idx lengths i in
      if fle l 0 then (r, Some l)
      else NewRect_loop lengths ks'
             (mkRect (rP r) (upd (rQ r) i (idx (rQ r) i + idx (rP r) i)))
  end.

(** [func NewRect(p Point, lengths [Dim]float64) (r Rect, err error)] *)
Definition NewRect (p : Point) (lengths : Point) : Rect * option DistError :=
  NewRect_loop lengths (seq 0 Dim) (mkRect p lengths).

(** [func (r *Rect) margin() float64] *)
Definition margin (r : Rect) : Q :=
  4 * fold_left (fun sum i => sum + (idx (rQ r) i - idx (rP r) i)) (seq 0 Dim) 0.

(** [func (r *Rect) ContainsPoint(p Point) bool] *)
Fixpoint ContainsPoint_loop (r : Rect) (p : Point) (ks : list nat) : bool :=
  match ks with
  | [] => true
  | i :: ks' =>
      let a := idx p i in
      if flt a (idx (rP r) i) || fgt a (idx (rQ r) i) then false
      else ContainsPoint_loop r p ks'
  end.

Definition ContainsPoint (r : Rect) (p : Point) : bool :=
  ContainsPoint_loop r p (seq 0 Dim).

(** [func (r1 *Rect) ContainsRect(r2 *Rect) bool] *)
Fixpoint ContainsRect_loop (r1 r2 : Rect) (ks : list nat) : bool :=
  match ks with
  | [] => true
  | i :: ks' =>
      let a1 := idx (rP r1) i in
      let b1 := idx (rQ r1) i in
      let a2 := idx (rP r2) i in
      let b2 := idx (rQ r2) i in
      if fgt a1 a2 || fgt b2 b1 then false
      else ContainsRect_loop r1 r2 ks'
  end.

Definition ContainsRect (r1 r2 : Rect) : bool :=
  ContainsRect_loop r1 r2 (seq 0 Dim).

(** One turn of the loop of [enlarge], on the current value of [*r1]. *)
Definition enlarge_step (r2 : Rect) (r1 : Rect) (i : nat) : Rect :=
  let r1' :=
    if fgt (idx (rP r1) i) (idx (rP r2) i)
    then mkRect (upd (rP r1) i (idx (rP r2) i)) (rQ r1) else r1 in
  if flt (idx (rQ r1') i) (idx (rQ r2) i)
  then mkRect (rP r1') (upd (rQ r1') i (idx (rQ r2) i)) else r1'.

(** [func (r1 *Rect) enlarge(r2 *Rect)]: the value of [*r1] afterwards, for
    [r2] that is not the same object as [r1]. *)
Definition enlarge (r1 r2 : Rect) : Rect :=
  fold_left (enlarge_step r2) (seq 0 Dim) r1.

(** [func Intersect(r1, r2 *Rect) bool] *)
Fixpoint Intersect_loop (r1 r2 : Rect) (ks : list nat) : bool :=
  match ks with
  | [] => true
  | i :: ks' =>
      if fle (idx (rQ r2) i) (idx (rP r1) i)
         || fle (idx (rQ r1) i) (idx (rP r2) i)
      then false
      else Intersect_loop r1 r2 ks'
  end.

Definition Intersect (r1 r2 : Rect) : bool :=
  Intersect_loop r1 r2 (seq 0 Dim).

(** One turn of the loop of [ToRect], on the current value of [r]. *)
Definition ToRect_step (p : Point) (tol : Q) (r : Rect) (i : nat) : Rect :=
  let r' := mkRect (upd (rP r) i (idx p i - tol)) (rQ r) in
  mkRect (rP r') (upd (rQ r') i (idx p i + tol)).

(** [func (p Point) ToRect(tol float64) *Rect]; [var r Rect] is the zero
    value. *)
Definition ToRect (p : Point) (tol : Q) : Rect :=
  fold_left (ToRect_step p tol) (seq 0 Dim) (mkRect zeroPoint zeroPoint).

(** [func initBoundingBox(r, r1, r2 *Rect)]: the value of [*r] afterwards. *)
Definition initBoundingBox (r1 r2 : Rect) : Rect := enlarge r1 r2.

(** [func boundingBox(r1, r2 *Rect) *Rect] *)
Definition boundingBox (r1 r2 : Rect) : Rect := initBoundingBox r1 r2.

(** The rectangle [NewRect] has under construction after the turns up to [k]: the corner
    is [p], the entries of [r.Q] below [k] are sums and the others are still
    the lengths. *)
Definition NewRect_built (p lengths : Point) (k : nat) (r : Rect) : Prop :=
  rP r = p /\ length (rQ r) = length lengths /\
  (forall i, (i < k)%nat ->
     0 < idx lengths i /\ idx (rQ r) i = idx lengths i + idx p i) /\
  (forall i, (k <= i)%nat -> idx (rQ r) i = idx lengths i).

(** What one turn of the loop of [minDist] adds to [sum] in dimension [i]. *)
Definition minDist_term (p : Point) (r : Rect) (i : nat) : Q :=
  let pi := idx p i in
  if flt pi (idx (rP r) i) then (pi - idx (rP r) i) * (pi - idx (rP r) i)
  else if fgt pi (idx (rQ r) i) then (pi - idx (rQ r) i) * (pi - idx (rQ r) i)
  else 0.


(** ** Point arithmetic and the measure of a rectangle *)

(** [func (p Point) Dot(q Point) float64] *)
Definition Dot (p q : Point) : Q :=
  fold_left (fun sum i => sum + idx p i * idx q i) (seq 0 Dim) 0.

(** [func (p Point) Add(q Point) Point]; [var sum Point] is the zero value. *)
Definition Add (p q : Point) : Point :=
  fold_left (fun sum i => upd sum i (idx p i + idx q i)) (seq 0 Dim) zeroPoint.

(** [func (p Point) Sub(q Point) Point] *)
Definition Sub (p q : Point) : Point :=
  fold_left (fun diff i => upd diff i (idx p i - idx q i)) (seq 0 Dim) zeroPoint.

(** The argument that [Dist] passes to [math.Sqrt]: [dp.Dot(dp)] for
    [dp := p.Sub(q)].  The square root itself is not a rational function. *)
Definition Dist_radicand (p q : Point) : Q :=
  let dp := Sub p q in Dot dp dp.

(** The argument that [Norm] passes to [math.Sqrt]. *)
Definition Norm_radicand (p : Point) : Q := Dot p p.

(** ** Sums and minima used in the statements *)


(** A sum over the dimensions [0 .. Dim-1]. *)
Definition sum_dims (f : nat -> Q) : Q := sumr f (seq 0 Dim).


End Geom.

(** ** Sample values *)

Definition origin2 : Point := [0; 0].
Definition origin3 : Point := [0; 0; 0].
Definition ones3 : Point := [1; 1; 1].
Definition twos3 : Point := [2; 2; 2].

(** The square [[0,2] x [0,2]] and the cube [[0,2]^3]. *)
Definition square02 : Rect := mkRect [0; 0] [2; 2].
Definition cube02 : Rect := mkRect origin3 twos3.
Definition cube13 : Rect := mkRect ones3 [3; 3; 3].

Definition cube24 : Rect := mkRect twos3 [4; 4; 4].

Definition inner12 : Rect := mkRect ones3 twos3.
Definition threes3 : Point := [3; 3; 3].
Definition fives3 : Point := [5; 5; 5].
Definition cube03 : Rect := mkRect origin3 threes3.

(** * The functions on binary64

    Each [+], [-], [*] and [/] of the source is one correctly rounded
    binary64 operation, rounded on its own, the comparisons are those of
    IEEE 754, and [math.MaxFloat64] is the largest finite number. *)

Module Binary64.

Import PrimFloat.
Local Open Scope float_scope.

(** [type Point [Dim]float64] *)
Definition Point : Type := list float.

(** [p[i]] *)
Definition idx (p : Point) (i : nat) : float := nth i p 0.

(** [type Rect struct { P, Q Point }] *)
Record Rect : Type := mkRect { rP : Point; rQ : Point }.

(** [math.MaxFloat64] *)
Definition MaxFloat64 : float := 0x1.fffffffffffffp+1023.

Section Dims.

Variable Dim : nat.

(** The invariant stated on [Rect]: [P[i] <= Q[i]] for every [i]. *)
Definition rect_ok (r : Rect) : bool :=
  forallb (fun i => idx (rP r) i <=? idx (rQ r) i) (seq 0 Dim).

(** [func (p Point) minDist(r *Rect) float64] *)
Definition minDist (p : Point) (r : Rect) : float :=
  fold_left
    (fun sum i =>
       let pi := idx p i in
       if pi <? idx (rP r) i then
         let d := pi - idx (rP r) i in sum + d * d
       else if idx (rQ r) i <? pi then
         let d := pi - idx (rQ r) i in sum + d * d
       else sum + 0)
    (seq 0 Dim) 0.

(** The closures [rm] and [rM] of [minMaxDist]. *)
Definition rm (p : Point) (r : Rect) (k : nat) : float :=
  if idx p k <=? (idx (rP r) k + idx (rQ r) k) / 2 then idx (rP r) k
  else idx (rQ r) k.

Definition rM (p : Point) (r : Rect) (k : nat) : float :=
  if (idx (rP r) k + idx (rQ r) k) / 2 <=? idx p k then idx (rP r) k
  else idx (rQ r) k.

(** The first loop of [minMaxDist]. *)
Definition minMaxDist_S (p : Point) (r : Rect) : float :=
  fold_left (fun S i => let d := idx p i - rM p r i in S + d * d) (seq 0 Dim) 0.

(** [func (p Point) minMaxDist(r *Rect) float64] *)
Definition minMaxDist (p : Point) (r : Rect) : float :=
  let S := minMaxDist_S p r in
  fold_left
    (fun min k =>
       let d1 := idx p k - rM p r k in
       let d2 := idx p k - rm p r k in
       let d := S - d1 * d1 + d2 * d2 in
       if d <? min then d else min)
    (seq 0 Dim) MaxFloat64.

(** [func (r *Rect) margin() float64] *)
Definition margin (r : Rect) : float :=
  4 * fold_left (fun sum i => sum + (idx (rQ r) i - idx (rP r) i)) (seq 0 Dim) 0.

(** [func (r *Rect) ContainsPoint(p Point) bool] *)
Fixpoint ContainsPoint_loop (r : Rect) (p : Point) (ks : list nat) : bool :=
  match ks with
  | [] => true
  | i :: ks' =>
      let a := idx p i in
      if (a <? idx (rP r) i) || (idx (rQ r) i <? a) then false
      else ContainsPoint_loop r p ks'
  end.

Definition ContainsPoint (r : Rect) (p : Point) : bool :=
  ContainsPoint_loop r p (seq 0 Dim).

(** ** The formulas of the specification

    These follow the words of the specification, not the code.  Sums run
    over the dimensions in increasing order, each addition rounded. *)

(** The contribution of dimension [i] to [min_dist]: when [p_i] lies below
    [low_i] or above [high_i], the squared gap to the boundary it lies
    beyond; otherwise 0. *)
Definition spec_gap (p : Point) (r : Rect) (i : nat) : float :=
  if (idx p i <? idx (rP r) i) || (idx (rQ r) i <? idx p i)
  then (if idx p i <? idx (rP r) i
        then (idx p i - idx (rP r) i) * (idx p i - idx (rP r) i)
        else (idx p i - idx (rQ r) i) * (idx p i - idx (rQ r) i))
  else 0.

Definition spec_min_dist (p : Point) (r : Rect) : float :=
  fold_left (fun s i => s + spec_gap p r i) (seq 0 Dim) 0.

Definition spec_mid (r : Rect) (k : nat) : float :=
  (idx (rP r) k + idx (rQ r) k) / 2.

(** The face on the same side of the midpoint as [p_k], and the opposite
    face.  When [p_k] is the midpoint either face may be called the nearer
    one; [tie k] says which, and the farther one is the other face. *)
Definition spec_near (tie : nat -> bool) (p : Point) (r : Rect) (k : nat)
  : float :=
  if idx p k <? spec_mid r k then idx (rP r) k
  else if spec_mid r k <? idx p k then idx (rQ r) k
  else if tie k then idx (rP r) k else idx (rQ r) k.

Definition spec_far (tie : nat -> bool) (p : Point) (r : Rect) (k : nat)
  : float :=
  if idx p k <? spec_mid r k then idx (rQ r) k
  else if spec_mid r k <? idx p k then idx (rP r) k
  else if tie k then idx (rQ r) k else idx (rP r) k.

Definition spec_S (tie : nat -> bool) (p : Point) (r : Rect) : float :=
  fold_left
    (fun s i => s + (idx p i - spec_far tie p r i) * (idx p i - spec_far tie p r i))
    (seq 0 Dim) 0.

Definition spec_cand (tie : nat -> bool) (p : Point) (r : Rect) (k : nat)
  : float :=
  spec_S tie p r
  - (idx p k - spec_far tie p r k) * (idx p k - spec_far tie p r k)
  + (idx p k - spec_near tie p r k) * (idx p k - spec_near tie p r k).

(** The least element of a list, if it has one. *)
Fixpoint least (l : list float) : option float :=
  match l with
  | [] => None
  | x :: t => match least t with
              | None => Some x
              | Some m => Some (if x <? m then x else m)
              end
  end.

Definition spec_min_max_dist (tie : nat -> bool) (p : Point) (r : Rect)
  : option float :=
  least (map (spec_cand tie p r) (seq 0 Dim)).

(** The formula that the comment inside [minMaxDist] gives as its
    definition: [min{k} (|pk - rmk|^2 + sum{i != k} |pi - rMi|^2)], computed
    as written, with the closures [rm] and [rM]. *)
Definition minMaxDist_by_definition (p : Point) (r : Rect) : option float :=
  least
    (map
       (fun k =>
          (idx p k - rm p r k) * (idx p k - rm p r k)
          + fold_left
              (fun s i =>
                 if Nat.eqb i k then s
                 else s + (idx p i - rM p r i) * (idx p i - rM p r i))
              (seq 0 Dim) 0)
       (seq 0 Dim)).

(** [2^n] *)
Fixpoint pow2 (n : nat) : float :=
  match n with
  | O => 1
  | S n' => 2 * pow2 n'
  end.

(** [2^(D-1) * sum (high_i - low_i)] *)
Definition spec_margin (r : Rect) : float :=
  match Dim with
  | O => 0.5
  | S n => pow2 n
  end
  * fold_left (fun s i => s + (idx (rQ r) i - idx (rP r) i)) (seq 0 Dim) 0.

End Dims.

(** ** Sample values *)

Definition origin3 : Point := [0; 0; 0].
Definition cube00 : Rect := mkRect origin3 origin3.
Definition cube02 : Rect := mkRect origin3 [2; 2; 2].
Definition square02 : Rect := mkRect [0; 0] [2; 2].

(** The point (2^52 + 2, 0, 0) and the box [2^52, 2^52 + 3] x [0,0] x [0,0]:
    the sum of the two faces, 2^53 + 3, rounds to 2^53 + 4, so the computed
    midpoint is the point's own coordinate. *)
Definition mid_point : Point := [0x1.0000000000002p+52; 0; 0].
Definition mid_box : Rect :=
  mkRect [0x1p+52; 0; 0] [0x1.0000000000003p+52; 0; 0].

(** The point (0, 3, 3) and the box [0, 2^30] x [0,0] x [0,0]. *)
Definition slab_point : Point := [0; 3; 3].
Definition slab_box : Rect := mkRect origin3 [0x1p+30; 0; 0].

(** Points at 2^600 and at 2^-600 on the first axis. *)
Definition far_point : Point := [0x1p+600; 0; 0].
Definition close_point : Point := [0x1p-600; 0; 0].

End Binary64.

(** * Facts *)

(** ** Comparisons *)

Lemma fle_true x y : fle x y = true <-> x <= y.
Proof. unfold fle. apply Qle_bool_iff. Qed.

Lemma fle_false x y : fle x y = false <-> y < x.
Proof.
  unfold fle. split; intro H.
  - apply Qnot_le_lt. intro L. apply Qle_bool_iff in L. congruence.
  - destruct (Qle_bool x y) eqn:E; [|reflexivity].
    apply Qle_bool_iff in E. lra.
Qed.

Lemma flt_true x y : flt x y = true <-> x < y.
Proof. unfold flt. rewrite negb_true_iff. apply fle_false. Qed.

Lemma flt_false x y : flt x y = false <-> y <= x.
Proof. unfold flt. rewrite negb_false_iff. apply fle_true. Qed.

(** Case analysis on every comparison in the goal, turning each outcome
    into its order fact. *)
Ltac cmp_cases :=
  unfold fgt, fge in *;
  repeat match goal with
    | |- context [fle ?x ?y] =>
        let E := fresh "E" in
        destruct (fle x y) eqn:E;
        [apply fle_true in E | apply fle_false in E]
    | |- context [flt ?x ?y] =>
        let E := fresh "E" in
        destruct (flt x y) eqn:E;
        [apply flt_true in E | apply flt_false in E]
    end.


(** ** Arrays *)

Lemma upd_length p i v : length (upd p i v) = length p.
Proof.
  revert i; induction p as [|x t IH]; intros [|i]; simpl; auto.
Qed.

Lemma idx_upd_same p i v : (i < length p)%nat -> idx (upd p i v) i = v.
Proof.
  unfold idx. revert i; induction p as [|x t IH]; intros [|i]; simpl; intro H;
    try lia; auto. apply IH; lia.
Qed.

Lemma idx_upd_other p i j v : i <> j -> idx (upd p i v) j = idx p j.
Proof.
  unfold idx. revert i j; induction p as [|x t IH]; intros [|i] [|j]; simpl;
    intro H; try congruence; auto.
Qed.

Lemma zeroPoint_length n : length (zeroPoint n) = n.
Proof. apply repeat_length. Qed.

Lemma seq_last n : seq 0 (S n) = seq 0 n ++ [n].
Proof. rewrite seq_S. reflexivity. Qed.

(** ** Sums and running minima *)

(** A loop that adds [f i] to its accumulator computes the sum of [f]. *)
Lemma fold_left_sum (F : Q -> nat -> Q) (f : nat -> Q) (l : list nat) :
  (forall s i, In i l -> F s i == s + f i) ->
  forall a, fold_left F l a == a + sumr f l.
Proof.
  induction l as [|x l IH]; intros HF a; simpl.
  - lra.
  - rewrite IH by (intros; apply HF; right; assumption).
    rewrite (HF a x) by (left; reflexivity). lra.
Qed.

Lemma sumr_le (f g : nat -> Q) (l : list nat) :
  (forall i, In i l -> f i <= g i) -> sumr f l <= sumr g l.
Proof.
  induction l as [|x l IH]; intros H; simpl.
  - lra.
  - assert (f x <= g x) by (apply H; left; reflexivity).
    assert (sumr f l <= sumr g l) by (apply IH; intros; apply H; right; assumption).
    lra.
Qed.

Lemma sumr_eq (f g : nat -> Q) (l : list nat) :
  (forall i, In i l -> f i == g i) -> sumr f l == sumr g l.
Proof.
  intro H. apply Qle_antisym; apply sumr_le; intros i Hi;
    rewrite (H i Hi); lra.
Qed.

Lemma sumr_nonneg (f : nat -> Q) (l : list nat) :
  (forall i, In i l -> 0 <= f i) -> 0 <= sumr f l.
Proof.
  induction l as [|x l IH]; intros H; simpl.
  - lra.
  - assert (0 <= f x) by (apply H; left; reflexivity).
    assert (0 <= sumr f l) by (apply IH; intros; apply H; right; assumption).
    lra.
Qed.

Lemma sumr_zero_iff (f : nat -> Q) (l : list nat) :
  (forall i, In i l -> 0 <= f i) ->
  (sumr f l == 0 <-> forall i, In i l -> f i == 0).
Proof.
  induction l as [|x l IH]; intros H; simpl.
  - split; [intros _ i []| reflexivity].
  - assert (Hx : 0 <= f x) by (apply H; left; reflexivity).
    assert (Hl : forall i, In i l -> 0 <= f i) by (intros; apply H; right; assumption).
    pose proof (sumr_nonneg f l Hl) as Hs.
    specialize (IH Hl). split.
    + intros E i [<-|Hi]; [lra|]. apply IH; [lra|assumption].
    + intros E. assert (f x == 0) by (apply E; left; reflexivity).
      assert (sumr f l == 0) by (apply IH; intros; apply E; right; assumption).
      lra.
Qed.


(** Case analysis on every [Qmin] in sight; afterwards each one is a plain
    scalar with its defining facts among the hypotheses. *)
Ltac qmin_cases :=
  repeat match goal with
    | |- context [Qmin ?a ?b] =>
        let m := fresh "m" in let H := fresh "Hm" in
        pose proof (Q.min_spec a b) as H;
        set (m := Qmin a b) in *; clearbody m;
        destruct H as [[? ?]|[? ?]]
    | _ : context [Qmin ?a ?b] |- _ =>
        let m := fresh "m" in let H := fresh "Hm" in
        pose proof (Q.min_spec a b) as H;
        set (m := Qmin a b) in *; clearbody m;
        destruct H as [[? ?]|[? ?]]
    end.



Section Facts.

Variable Dim : nat.

Lemma in_dims i : In i (seq 0 Dim) <-> (i < Dim)%nat.
Proof. rewrite in_seq. lia. Qed.

Lemma rect_ok_spec r :
  rect_ok Dim r = true <->
  forall i, (i < Dim)%nat -> idx (rP r) i <= idx (rQ r) i.
Proof.
  unfold rect_ok. rewrite forallb_forall. split; intros H i Hi.
  - apply fle_true, H, in_dims, Hi.
  - apply fle_true, H, in_dims, Hi.
Qed.

(** ** minDist *)

Lemma minDist_sum p r : minDist Dim p r == sum_dims Dim (minDist_term p r).
Proof.
  unfold minDist, sum_dims.
  rewrite fold_left_sum with (f := minDist_term p r); [lra|].
  intros s i _. unfold minDist_term. cbv zeta. cmp_cases; lra.
Qed.


Lemma minDist_term_zero p r i :
  minDist_term p r i == 0 <->
  idx (rP r) i <= idx p i /\ idx p i <= idx (rQ r) i.
Proof.
  unfold minDist_term. cbv zeta. cmp_cases; split; intro H; try nra; try lra.
Qed.

Lemma ContainsPoint_loop_spec r p l :
  ContainsPoint_loop r p l = true <->
  forall i, In i l -> idx (rP r) i <= idx p i /\ idx p i <= idx (rQ r) i.
Proof.
  induction l as [|x l IH]; simpl.
  - split; [intros _ i []|reflexivity].
  - cmp_cases; simpl;
      try (split; [discriminate|]; intro H;
           specialize (H x (or_introl eq_refl)); exfalso; lra).
    rewrite IH. split; intro H.
    + intros i [<-|Hi]; [lra|]. apply H; assumption.
    + intros i Hi. apply H. right; assumption.
Qed.

(** ** minMaxDist *)






(** ** NewRect *)

Lemma NewRect_loop_app lengths l1 l2 r :
  NewRect_loop lengths (l1 ++ l2) r =
  match NewRect_loop lengths l1 r with
  | (r', None) => NewRect_loop lengths l2 r'
  | (r', Some e) => (r', Some e)
  end.
Proof.
  revert r; induction l1 as [|x l1 IH]; intros r; simpl; [reflexivity|].
  destruct (fle (idx lengths x) 0); [reflexivity|apply IH].
Qed.

Lemma NewRect_prefix p lengths n :
  (n <= length lengths)%nat ->
  match NewRect_loop lengths (seq 0 n) (mkRect p lengths) with
  | (r, None) => NewRect_built p lengths n r
  | (r, Some e) =>
      exists k, (k < n)%nat /\ e = idx lengths k /\ idx lengths k <= 0 /\
                NewRect_built p lengths k r
  end.
Proof.
  induction n as [|n IH]; intro Hn.
  - simpl. repeat split; intros; try lia; reflexivity.
  - rewrite seq_last, NewRect_loop_app.
    specialize (IH ltac:(lia)).
    destruct (NewRect_loop lengths (seq 0 n) (mkRect p lengths)) as [r [e|]].
    + destruct IH as [k [Hk H]]. exists k. split; [lia|assumption].
    + destruct IH as [HP [HL [Hlo Hhi]]]. simpl.
      destruct (fle (idx lengths n) 0) eqn:E.
      * apply fle_true in E. exists n.
        split; [lia|]. split; [reflexivity|]. split; [assumption|].
        unfold NewRect_built; auto.
      * apply fle_false in E. unfold NewRect_built. simpl.
        rewrite upd_length. repeat split; auto.
        -- destruct (Nat.eq_dec i n) as [->|Hne]; [assumption|].
           apply Hlo; lia.
        -- destruct (Nat.eq_dec i n) as [->|Hne].
           ++ rewrite idx_upd_same by lia. rewrite HP, Hhi by lia. reflexivity.
           ++ rewrite idx_upd_other by congruence. apply Hlo; lia.
        -- intros i Hi. rewrite idx_upd_other by lia. apply Hhi; lia.
Qed.

(** C4 (amended): [NewRect] returns an error exactly when some length is not
    positive, and the error carries the first such length.  Without an error
    the rectangle has [low = p] and [high_i = p_i + lengths_i].  With an
    error the rectangle under construction is returned beside it: its corner
    is [p], and its [high] holds the sums below the offending index and the
    lengths as passed from there on. *)
Theorem NewRect_outcome (p lengths : Point) :
  wf_point Dim lengths ->
  ((exists e, snd (NewRect Dim p lengths) = Some e) <->
   (exists i, (i < Dim)%nat /\ idx lengths i <= 0)) /\
  (forall e, snd (NewRect Dim p lengths) = Some e ->
     exists k, (k < Dim)%nat /\ e = idx lengths k /\ idx lengths k <= 0 /\
       (forall i, (i < k)%nat -> 0 < idx lengths i) /\
       rP (fst (NewRect Dim p lengths)) = p /\
       (forall i, (i < k)%nat ->
          idx (rQ (fst (NewRect Dim p lengths))) i == idx p i + idx lengths i) /\
       (forall i, (k <= i)%nat ->
          idx (rQ (fst (NewRect Dim p lengths))) i = idx lengths i)) /\
  (snd (NewRect Dim p lengths) = None ->
     rP (fst (NewRect Dim p lengths)) = p /\
     forall i, (i < Dim)%nat ->
       idx (rQ (fst (NewRect Dim p lengths))) i == idx p i + idx lengths i).
Proof.
  intro Hwf. unfold wf_point in Hwf.
  pose proof (NewRect_prefix p lengths Dim ltac:(lia)) as H.
  unfold NewRect.
  destruct (NewRect_loop lengths (seq 0 Dim) (mkRect p lengths)) as [r [e|]];
    simpl.
  - destruct H as [k [Hk [He [Hle [HP [HL [Hlo Hhi]]]]]]].
    split; [|split].
    + split; intros _; [exists k; auto|exists e; reflexivity].
    + intros e' [= <-]. exists k. repeat split; auto.
      * intros i Hi. apply Hlo; assumption.
      * intros i Hi. destruct (Hlo i Hi) as [_ ->]. lra.
    + discriminate.
  - destruct H as [HP [HL [Hlo Hhi]]].
    split; [|split].
    + split; [intros [e He]; discriminate|].
      intros [i [Hi Hle]]. destruct (Hlo i Hi) as [Hpos _]. lra.
    + discriminate.
    + intros _. split; [assumption|].
      intros i Hi. destruct (Hlo i Hi) as [_ ->]. lra.
Qed.

(** ** ToRect *)

Lemma ToRect_prefix (p : Point) (tol : Q) (n : nat) :
  (n <= Dim)%nat ->
  let r := fold_left (ToRect_step p tol) (seq 0 n)
             (mkRect (zeroPoint Dim) (zeroPoint Dim)) in
  length (rP r) = Dim /\ length (rQ r) = Dim /\
  forall i, (i < n)%nat ->
    idx (rP r) i = idx p i - tol /\ idx (rQ r) i = idx p i + tol.
Proof.
  induction n as [|n IH]; intro Hn; cbv zeta.
  - simpl. rewrite zeroPoint_length.
    repeat split; intros; solve [reflexivity | exfalso; lia].
  - rewrite seq_last, fold_left_app.
    destruct (IH ltac:(lia)) as [HP [HQ H]].
    set (r := fold_left (ToRect_step p tol) (seq 0 n)
                (mkRect (zeroPoint Dim) (zeroPoint Dim))) in *.
    simpl. rewrite !upd_length. repeat split; auto;
      (destruct (Nat.eq_dec i n) as [->|Hne];
       [rewrite idx_upd_same by lia; reflexivity
       |rewrite idx_upd_other by congruence; apply H; lia]).
Qed.

Lemma ToRect_spec (p : Point) (tol : Q) :
  wf_rect Dim (ToRect Dim p tol) /\
  forall i, (i < Dim)%nat ->
    idx (rP (ToRect Dim p tol)) i = idx p i - tol /\
    idx (rQ (ToRect Dim p tol)) i = idx p i + tol.
Proof.
  destruct (ToRect_prefix p tol Dim (Nat.le_refl _)) as [HP [HQ H]].
  unfold wf_rect, wf_point, ToRect. auto.
Qed.

(** ** enlarge and boundingBox *)

Lemma enlarge_prefix (r1 r2 : Rect) (n : nat) :
  wf_rect Dim r1 -> (n <= Dim)%nat ->
  let r := fold_left (enlarge_step r2) (seq 0 n) r1 in
  wf_rect Dim r /\
  (forall i, (i < n)%nat ->
     idx (rP r) i =
       (if fgt (idx (rP r1) i) (idx (rP r2) i) then idx (rP r2) i
        else idx (rP r1) i) /\
     idx (rQ r) i =
       (if flt (idx (rQ r1) i) (idx (rQ r2) i) then idx (rQ r2) i
        else idx (rQ r1) i)) /\
  (forall i, (n <= i)%nat ->
     idx (rP r) i = idx (rP r1) i /\ idx (rQ r) i = idx (rQ r1) i).
Proof.
  intros Hwf. induction n as [|n IH]; intro Hn; cbv zeta.
  - simpl. repeat split; intros; solve [apply Hwf | reflexivity | exfalso; lia].
  - rewrite seq_last, fold_left_app. simpl.
    destruct (IH ltac:(lia)) as [[HP HQ] [Hlo Hhi]].
    set (r := fold_left (enlarge_step r2) (seq 0 n) r1) in *.
    unfold wf_point in HP, HQ.
    destruct (Hhi n (Nat.le_refl _)) as [EP EQ].
    assert (Hstep :
      wf_rect Dim (enlarge_step r2 r n) /\
      (idx (rP (enlarge_step r2 r n)) n =
         (if fgt (idx (rP r1) n) (idx (rP r2) n) then idx (rP r2) n
          else idx (rP r1) n) /\
       idx (rQ (enlarge_step r2 r n)) n =
         (if flt (idx (rQ r1) n) (idx (rQ r2) n) then idx (rQ r2) n
          else idx (rQ r1) n)) /\
      (forall i, i <> n ->
         idx (rP (enlarge_step r2 r n)) i = idx (rP r) i /\
         idx (rQ (enlarge_step r2 r n)) i = idx (rQ r) i)).
    { unfold enlarge_step, wf_rect, wf_point. rewrite <- EP, <- EQ.
      destruct (fgt (idx (rP r) n) (idx (rP r2) n));
        destruct (flt (idx (rQ r) n) (idx (rQ r2) n)) eqn:E2; simpl;
        rewrite ?E2; simpl; rewrite ?upd_length;
        repeat split; auto; intros;
        rewrite ?idx_upd_same by lia; rewrite ?idx_upd_other by congruence;
        reflexivity. }
    destruct Hstep as [Hw [Hn' Ho]].
    split; [assumption|]. split.
    + intros i Hi. destruct (Nat.eq_dec i n) as [->|Hne]; [assumption|].
      destruct (Ho i Hne) as [-> ->]. apply Hlo; lia.
    + intros i Hi. destruct (Ho i ltac:(lia)) as [-> ->]. apply Hhi; lia.
Qed.

Lemma enlarge_spec (r1 r2 : Rect) :
  wf_rect Dim r1 ->
  wf_rect Dim (enlarge Dim r1 r2) /\
  forall i, (i < Dim)%nat ->
    idx (rP (enlarge Dim r1 r2)) i =
      (if fgt (idx (rP r1) i) (idx (rP r2) i) then idx (rP r2) i
       else idx (rP r1) i) /\
    idx (rQ (enlarge Dim r1 r2)) i =
      (if flt (idx (rQ r1) i) (idx (rQ r2) i) then idx (rQ r2) i
       else idx (rQ r1) i).
Proof.
  intro Hwf.
  destruct (enlarge_prefix r1 r2 Dim Hwf (Nat.le_refl _)) as [Hw [H _]].
  split; assumption.
Qed.

Lemma enlarge_fixed (r1 r2 : Rect) (l : list nat) :
  (forall i, In i l ->
     idx (rP r1) i <= idx (rP r2) i /\ idx (rQ r2) i <= idx (rQ r1) i) ->
  fold_left (enlarge_step r2) l r1 = r1.
Proof.
  induction l as [|x l IH]; intro H; simpl; [reflexivity|].
  assert (E : enlarge_step r2 r1 x = r1).
  { destruct (H x (or_introl eq_refl)) as [H1 H2].
    apply flt_false in H1, H2. unfold enlarge_step, fgt.
    rewrite H1, H2. reflexivity. }
  rewrite E. apply IH. intros i Hi. apply H. right; assumption.
Qed.

Lemma ContainsRect_loop_spec r1 r2 l :
  ContainsRect_loop r1 r2 l = true <->
  forall i, In i l ->
    idx (rP r1) i <= idx (rP r2) i /\ idx (rQ r2) i <= idx (rQ r1) i.
Proof.
  induction l as [|x l IH]; simpl.
  - split; [intros _ i []|reflexivity].
  - cmp_cases; simpl;
      try (split; [discriminate|]; intro H;
           specialize (H x (or_introl eq_refl)); exfalso; lra).
    rewrite IH. split; intro H.
    + intros i [<-|Hi]; [lra|]. apply H; assumption.
    + intros i Hi. apply H. right; assumption.
Qed.

(** C5 (amended): [low_i <= high_i] holds in every dimension for the
    rectangle of a [NewRect] that returned no error, for [ToRect] with a
    tolerance that is not negative, and for [enlarge] and [boundingBox] on a
    first rectangle that satisfies it. *)
Theorem constructions_keep_invariant
  (p lengths : Point) (tol : Q) (r1 r2 : Rect) :
  (wf_point Dim lengths -> snd (NewRect Dim p lengths) = None ->
   rect_ok Dim (fst (NewRect Dim p lengths)) = true) /\
  (0 <= tol -> rect_ok Dim (ToRect Dim p tol) = true) /\
  (wf_rect Dim r1 -> rect_ok Dim r1 = true ->
   rect_ok Dim (enlarge Dim r1 r2) = true /\
   rect_ok Dim (boundingBox Dim r1 r2) = true).
Proof.
  split; [|split].
  - intros Hwf Hnone. unfold wf_point in Hwf.
    pose proof (NewRect_prefix p lengths Dim ltac:(lia)) as H.
    unfold NewRect in *.
    destruct (NewRect_loop lengths (seq 0 Dim) (mkRect p lengths)) as [r [e|]];
      simpl in *; [discriminate|].
    destruct H as [HP [_ [Hlo _]]].
    apply rect_ok_spec. intros i Hi.
    destruct (Hlo i Hi) as [Hpos ->]. rewrite HP. lra.
  - intro Htol. apply rect_ok_spec. intros i Hi.
    destruct (ToRect_spec p tol) as [_ H].
    destruct (H i Hi) as [-> ->]. lra.
  - intros Hwf Hok.
    assert (Hen : rect_ok Dim (enlarge Dim r1 r2) = true).
    { apply rect_ok_spec. intros i Hi.
      destruct (enlarge_spec r1 r2 Hwf) as [_ H].
      destruct (H i Hi) as [-> ->].
      pose proof (proj1 (rect_ok_spec r1) Hok i Hi).
      cmp_cases; lra. }
    split; [exact Hen|exact Hen].
Qed.

(** ** Intersect *)

Lemma Intersect_loop_true r1 r2 l :
  Intersect_loop r1 r2 l = true <->
  forall i, In i l ->
    idx (rP r1) i < idx (rQ r2) i /\ idx (rP r2) i < idx (rQ r1) i.
Proof.
  induction l as [|x l IH]; simpl.
  - split; [intros _ i []|reflexivity].
  - cmp_cases; simpl;
      try (split; [discriminate|]; intro H;
           specialize (H x (or_introl eq_refl)); exfalso; lra).
    rewrite IH. split; intro H.
    + intros i [<-|Hi]; [lra|]. apply H; assumption.
    + intros i Hi. apply H. right; assumption.
Qed.

Lemma Intersect_loop_false r1 r2 l :
  Intersect_loop r1 r2 l = false <->
  exists i, In i l /\
    (idx (rQ r2) i <= idx (rP r1) i \/ idx (rQ r1) i <= idx (rP r2) i).
Proof.
  induction l as [|x l IH]; simpl.
  - split; [discriminate|intros [i [[] _]]].
  - cmp_cases; simpl;
      try (split; [intros _; exists x; split; [left; reflexivity|lra]
                  |reflexivity]).
    rewrite IH. split; intros [i [Hi H]].
    + exists i. split; [right; assumption|assumption].
    + destruct Hi as [<-|Hi]; [exfalso; lra|]. exists i. split; assumption.
Qed.

(** C7: [Intersect] is true unless in some dimension [r2.high_i <= r1.low_i]
    or [r1.high_i <= r2.low_i]; the test is strict, so two rectangles that
    only touch along a shared boundary do not intersect. *)
Theorem Intersect_strict (r1 r2 : Rect) :
  (Intersect Dim r1 r2 = false <->
   exists i, (i < Dim)%nat /\
     (idx (rQ r2) i <= idx (rP r1) i \/ idx (rQ r1) i <= idx (rP r2) i)) /\
  (Intersect Dim r1 r2 = true <->
   ~ exists i, (i < Dim)%nat /\
     (idx (rQ r2) i <= idx (rP r1) i \/ idx (rQ r1) i <= idx (rP r2) i)) /\
  (forall i, (i < Dim)%nat ->
     idx (rQ r1) i == idx (rP r2) i \/ idx (rQ r2) i == idx (rP r1) i ->
     Intersect Dim r1 r2 = false).
Proof.
  assert (Hf : Intersect Dim r1 r2 = false <->
               exists i, (i < Dim)%nat /\
                 (idx (rQ r2) i <= idx (rP r1) i \/
                  idx (rQ r1) i <= idx (rP r2) i)).
  { unfold Intersect. rewrite Intersect_loop_false.
    split; intros [i [Hi H]]; exists i; (split; [apply in_dims|]); assumption. }
  split; [exact Hf|]. split.
  - rewrite <- Hf. destruct (Intersect Dim r1 r2); split; congruence.
  - intros i Hi H. apply Hf. exists i. split; [assumption|].
    destruct H as [H|H]; [right|left]; lra.
Qed.

(** C8 (amended): [Intersect(r, r)] is true exactly when [low_i < high_i] in
    every dimension.  A rectangle of zero extent in some dimension, such as
    one built by [ToRect] with tolerance 0, does not intersect itself; it
    intersects another rectangle only if its coordinate in that dimension
    lies strictly between that rectangle's two faces. *)
Theorem Intersect_self (p : Point) (r : Rect) :
  (Intersect Dim r r = true <->
   forall i, (i < Dim)%nat -> idx (rP r) i < idx (rQ r) i) /\
  (forall i, (i < Dim)%nat -> idx (rP r) i == idx (rQ r) i ->
     Intersect Dim r r = false /\
     forall r2, Intersect Dim r r2 = true ->
       idx (rP r2) i < idx (rP r) i /\ idx (rP r) i < idx (rQ r2) i) /\
  ((0 < Dim)%nat -> Intersect Dim (ToRect Dim p 0) (ToRect Dim p 0) = false).
Proof.
  assert (Hself : forall r', Intersect Dim r' r' = true <->
            forall i, (i < Dim)%nat -> idx (rP r') i < idx (rQ r') i).
  { intro r'. unfold Intersect. rewrite Intersect_loop_true.
    split; intros H i Hi.
    - apply H, in_dims, Hi.
    - split; apply H, in_dims, Hi. }
  split; [apply Hself|]. split.
  - intros i Hi Hz. split.
    + destruct (Intersect Dim r r) eqn:E; [|reflexivity].
      pose proof (proj1 (Hself r) E i Hi). lra.
    + intros r2 H. unfold Intersect in H.
      rewrite Intersect_loop_true in H.
      destruct (H i (proj2 (in_dims i) Hi)). lra.
  - intro HD. destruct (Intersect Dim (ToRect Dim p 0) (ToRect Dim p 0)) eqn:E;
      [|reflexivity].
    pose proof (proj1 (Hself _) E 0%nat HD) as H.
    destruct (ToRect_spec p 0) as [_ HT].
    destruct (HT 0%nat HD) as [EP EQ]. rewrite EP, EQ in H. lra.
Qed.

(** C9: under the invariant on [r1], the bounding box of [r1] and [r2] is no
    farther from any point than [r1] is. *)
Theorem minDist_boundingBox (p : Point) (r1 r2 : Rect) :
  wf_rect Dim r1 -> rect_ok Dim r1 = true ->
  minDist Dim p (boundingBox Dim r1 r2) <= minDist Dim p r1.
Proof.
  intros Hwf Hok. rewrite !minDist_sum. unfold sum_dims.
  apply sumr_le. intros i Hi. apply in_dims in Hi.
  unfold boundingBox, initBoundingBox.
  destruct (enlarge_spec r1 r2 Hwf) as [_ H].
  destruct (H i Hi) as [EP EQ].
  pose proof (proj1 (rect_ok_spec r1) Hok i Hi) as Hinv.
  unfold minDist_term. cbv zeta. rewrite EP, EQ.
  cmp_cases; nra.
Qed.

(** C10: when [r1] contains [r2], the bounding box of [r1] and [r2] is [r1]
    itself, as a value. *)
Theorem boundingBox_contained (r1 r2 : Rect) :
  ContainsRect Dim r1 r2 = true -> boundingBox Dim r1 r2 = r1.
Proof.
  unfold ContainsRect, boundingBox, initBoundingBox, enlarge.
  intro H. apply enlarge_fixed. apply ContainsRect_loop_spec. assumption.
Qed.

(** ** margin *)

Lemma margin_sum (r : Rect) :
  margin Dim r == 4 * sum_dims Dim (fun i => idx (rQ r) i - idx (rP r) i).
Proof.
  unfold margin, sum_dims.
  rewrite fold_left_sum with (f := fun i => idx (rQ r) i - idx (rP r) i);
    [lra|].
  intros s i _. lra.
Qed.

End Facts.

(** ** The theorems on sample values *)

(** Comparisons between closed scalars, by computation. *)
Ltac qle_compute := apply Qle_bool_iff; vm_compute; reflexivity.

Lemma NewRect_outcome_witness :
  wf_point 2 [1; -1] /\
  exists k, (k < 2)%nat /\ -1 = idx [1; -1] k /\ idx [1; -1] k <= 0.
Proof.
  split; [reflexivity|].
  destruct (NewRect_outcome 2 origin2 [1; -1] eq_refl) as [_ [H _]].
  destruct (H (-1) eq_refl) as [k [Hk [He [Hle _]]]].
  exists k. auto.
Defined.

Lemma constructions_keep_invariant_witness :
  rect_ok 3 (fst (NewRect 3 origin3 ones3)) = true /\
  rect_ok 3 (ToRect 3 ones3 1) = true /\
  rect_ok 3 (enlarge 3 cube02 cube13) = true /\
  rect_ok 3 (boundingBox 3 cube02 cube13) = true.
Proof.
  destruct (constructions_keep_invariant 3 origin3 ones3 1 cube02 cube13)
    as [H1 [H2 H3]].
  split; [apply H1; reflexivity|].
  split; [apply H2; qle_compute|].
  apply H3; [split; reflexivity|reflexivity].
Defined.

Lemma Intersect_strict_witness :
  (2 < 3)%nat /\ idx (rQ cube02) 2 == idx (rP cube24) 2 /\
  Intersect 3 cube02 cube24 = false.
Proof.
  split; [lia|]. split; [reflexivity|].
  destruct (Intersect_strict 3 cube02 cube24) as [_ [_ H]].
  apply (H 2%nat); [lia|left; reflexivity].
Defined.

Lemma Intersect_self_witness :
  (0 < 3)%nat /\
  Intersect 3 (ToRect 3 ones3 0) (ToRect 3 ones3 0) = false /\
  (Intersect 3 cube02 cube02 = true <->
   forall i, (i < 3)%nat -> idx (rP cube02) i < idx (rQ cube02) i).
Proof.
  split; [lia|].
  destruct (Intersect_self 3 ones3 cube02) as [H1 [_ H3]].
  split; [apply H3; lia|exact H1].
Defined.

Lemma minDist_boundingBox_witness :
  wf_rect 3 cube13 /\ rect_ok 3 cube13 = true /\
  minDist 3 origin3 (boundingBox 3 cube13 cube02) <= minDist 3 origin3 cube13.
Proof.
  split; [split; reflexivity|]. split; [reflexivity|].
  apply (minDist_boundingBox 3 origin3 cube13 cube02);
    [split; reflexivity|reflexivity].
Defined.

Lemma boundingBox_contained_witness :
  ContainsRect 3 cube02 (mkRect ones3 twos3) = true /\
  boundingBox 3 cube02 (mkRect ones3 twos3) = cube02.
Proof.
  split; [reflexivity|].
  apply (boundingBox_contained 3 cube02 (mkRect ones3 twos3)). reflexivity.
Defined.

(** ** Where the claims fail *)

(** C4 as stated fails in its second part: for corner (0,0) and lengths
    (1,-1) the error carries -1 and the rectangle returned beside it has
    [high = (1,-1)], below [low] in the second dimension. *)
Lemma NewRect_returns_partial :
  snd (NewRect 2 origin2 [1; -1]) = Some (-1) /\
  fst (NewRect 2 origin2 [1; -1]) = mkRect [0; 0] [1; -1] /\
  rect_ok 2 (fst (NewRect 2 origin2 [1; -1])) = false.
Proof.
  repeat split; vm_compute; reflexivity.
Qed.

(** C5 as stated fails for [ToRect] with a negative tolerance. *)
Lemma ToRect_negative_tolerance :
  rect_ok 3 (ToRect 3 origin3 (-1)) = false /\
  ~ idx (rP (ToRect 3 origin3 (-1))) 0 <= idx (rQ (ToRect 3 origin3 (-1))) 0.
Proof.
  split; [reflexivity|]. vm_compute. intro H. apply H. reflexivity.
Qed.

(** C8 as stated fails in its second part: the rectangle of zero extent at
    (1,1,1) intersects the cube [0,2]^3. *)
Lemma zero_extent_intersects :
  idx (rP (ToRect 3 ones3 0)) 0 == idx (rQ (ToRect 3 ones3 0)) 0 /\
  rect_ok 3 cube02 = true /\
  Intersect 3 (ToRect 3 ones3 0) cube02 = true.
Proof.
  repeat split; vm_compute; reflexivity.
Qed.

(** * Further facts of geom.go *)

(** ** Sums, products and loops that fill an array *)

Lemma square_nonneg (x : Q) : 0 <= x * x.
Proof. nra. Qed.

Lemma bool_eq_true (a b : bool) : (a = true <-> b = true) -> a = b.
Proof. destruct a, b; intros [H1 H2]; auto; symmetry; auto. Qed.

Section MoreFacts.

Variable Dim : nat.

(** A loop that stores [f i] at index [i] of the zero array. *)
Lemma fill_prefix (f : nat -> Q) (n : nat) :
  (n <= Dim)%nat ->
  let s := fold_left (fun s i => upd s i (f i)) (seq 0 n) (zeroPoint Dim) in
  length s = Dim /\ forall i, (i < n)%nat -> idx s i = f i.
Proof.
  induction n as [|n IH]; intro Hn; cbv zeta.
  - simpl. rewrite zeroPoint_length. split; [reflexivity|].
    intros; exfalso; lia.
  - rewrite seq_last, fold_left_app.
    destruct (IH ltac:(lia)) as [HL H].
    set (s := fold_left (fun s i => upd s i (f i)) (seq 0 n) (zeroPoint Dim)) in *.
    simpl. rewrite upd_length. split; [assumption|].
    intros i Hi. destruct (Nat.eq_dec i n) as [->|Hne].
    + apply idx_upd_same; lia.
    + rewrite idx_upd_other by congruence. apply H; lia.
Qed.

Lemma Add_spec p q :
  wf_point Dim (Add Dim p q) /\
  forall i, (i < Dim)%nat -> idx (Add Dim p q) i = idx p i + idx q i.
Proof. apply (fill_prefix (fun i => idx p i + idx q i) Dim (Nat.le_refl _)). Qed.

Lemma Sub_spec p q :
  wf_point Dim (Sub Dim p q) /\
  forall i, (i < Dim)%nat -> idx (Sub Dim p q) i = idx p i - idx q i.
Proof. apply (fill_prefix (fun i => idx p i - idx q i) Dim (Nat.le_refl _)). Qed.

Lemma Dot_sum p q :
  Dot Dim p q == sum_dims Dim (fun i => idx p i * idx q i).
Proof.
  unfold Dot, sum_dims.
  rewrite fold_left_sum with (f := fun i => idx p i * idx q i); [lra|].
  intros s i _. lra.
Qed.

Lemma ContainsRect_spec r1 r2 :
  ContainsRect Dim r1 r2 = true <->
  forall i, (i < Dim)%nat ->
    idx (rP r1) i <= idx (rP r2) i /\ idx (rQ r2) i <= idx (rQ r1) i.
Proof.
  unfold ContainsRect. rewrite ContainsRect_loop_spec.
  split; intros H i Hi; apply H, in_dims, Hi.
Qed.

Lemma ContainsPoint_spec r p :
  ContainsPoint Dim r p = true <->
  forall i, (i < Dim)%nat ->
    idx (rP r) i <= idx p i /\ idx p i <= idx (rQ r) i.
Proof.
  unfold ContainsPoint. rewrite ContainsPoint_loop_spec.
  split; intros H i Hi; apply H, in_dims, Hi.
Qed.

Lemma Intersect_spec r1 r2 :
  Intersect Dim r1 r2 = true <->
  forall i, (i < Dim)%nat ->
    idx (rP r1) i < idx (rQ r2) i /\ idx (rP r2) i < idx (rQ r1) i.
Proof.
  unfold Intersect. rewrite Intersect_loop_true.
  split; intros H i Hi; apply H, in_dims, Hi.
Qed.

(** The corners of [boundingBox], as the smaller and the larger value. *)
Lemma boundingBox_bounds r1 r2 i :
  wf_rect Dim r1 -> (i < Dim)%nat ->
  idx (rP (boundingBox Dim r1 r2)) i == Qmin (idx (rP r1) i) (idx (rP r2) i) /\
  idx (rQ (boundingBox Dim r1 r2)) i == Qmax (idx (rQ r1) i) (idx (rQ r2) i).
Proof.
  intros Hwf Hi. unfold boundingBox, initBoundingBox.
  destruct (enlarge_spec Dim r1 r2 Hwf) as [_ H].
  destruct (H i Hi) as [-> ->].
  split.
  - destruct (Q.min_spec (idx (rP r1) i) (idx (rP r2) i)) as [[? ->]|[? ->]];
      cmp_cases; lra.
  - destruct (Q.max_spec (idx (rQ r1) i) (idx (rQ r2) i)) as [[? ->]|[? ->]];
      cmp_cases; lra.
Qed.

(** ** Point arithmetic *)

Lemma Dist_radicand_sum p q :
  Dist_radicand Dim p q ==
  sum_dims Dim (fun i => (idx p i - idx q i) * (idx p i - idx q i)).
Proof.
  unfold Dist_radicand. cbv zeta. rewrite Dot_sum. unfold sum_dims.
  apply sumr_eq. intros i Hi.
  destruct (Sub_spec p q) as [_ H]. rewrite (H i (proj1 (in_dims Dim i) Hi)).
  reflexivity.
Qed.

(** X5: for the rectangle that [ToRect] builds around [q] with tolerance 0,
    [minDist] from [p] is the squared distance of [Dist] between [p] and
    [q]. *)
Theorem minDist_ToRect_zero (p q : Point) :
  minDist Dim p (ToRect Dim q 0) == Dist_radicand Dim p q.
Proof.
  rewrite minDist_sum, Dist_radicand_sum. unfold sum_dims.
  apply sumr_eq. intros i Hi. apply in_dims in Hi.
  destruct (ToRect_spec Dim q 0) as [_ H]. destruct (H i Hi) as [EP EQ].
  unfold minDist_term. cbv zeta. rewrite EP, EQ.
  cmp_cases; try ring.
  assert (Hz : idx p i - idx q i == 0) by lra. rewrite Hz. ring.
Qed.

(** ** Containment and overlap *)

(** X6: [ContainsRect] is reflexive and transitive. *)
Theorem ContainsRect_preorder (r1 r2 r3 : Rect) :
  ContainsRect Dim r1 r1 = true /\
  (ContainsRect Dim r1 r2 = true -> ContainsRect Dim r2 r3 = true ->
   ContainsRect Dim r1 r3 = true).
Proof.
  split.
  - apply ContainsRect_spec. intros i _. lra.
  - rewrite !ContainsRect_spec. intros H12 H23 i Hi.
    specialize (H12 i Hi). specialize (H23 i Hi). lra.
Qed.

(** X7: two rectangles that contain each other have the same corners. *)
Theorem ContainsRect_antisym (r1 r2 : Rect) :
  ContainsRect Dim r1 r2 = true -> ContainsRect Dim r2 r1 = true ->
  forall i, (i < Dim)%nat ->
    idx (rP r1) i == idx (rP r2) i /\ idx (rQ r1) i == idx (rQ r2) i.
Proof.
  rewrite !ContainsRect_spec. intros H12 H21 i Hi.
  specialize (H12 i Hi). specialize (H21 i Hi). lra.
Qed.

(** X8: [Intersect] does not depend on the order of its arguments. *)
Theorem Intersect_sym (r1 r2 : Rect) :
  Intersect Dim r1 r2 = Intersect Dim r2 r1.
Proof.
  apply bool_eq_true. rewrite !Intersect_spec.
  split; intros H i Hi; specialize (H i Hi); lra.
Qed.

(** X9: a rectangle that contains [r2] contains every point of [r2]. *)
Theorem ContainsRect_ContainsPoint (r1 r2 : Rect) (p : Point) :
  ContainsRect Dim r1 r2 = true -> ContainsPoint Dim r2 p = true ->
  ContainsPoint Dim r1 p = true.
Proof.
  rewrite ContainsRect_spec, !ContainsPoint_spec. intros H12 Hp i Hi.
  specialize (H12 i Hi). specialize (Hp i Hi). lra.
Qed.

(** X10: a rectangle that contains [r2] overlaps everything [r2]
    overlaps. *)
Theorem Intersect_monotone (r1 r2 r3 : Rect) :
  ContainsRect Dim r1 r2 = true -> Intersect Dim r2 r3 = true ->
  Intersect Dim r1 r3 = true.
Proof.
  rewrite ContainsRect_spec, !Intersect_spec. intros H12 H23 i Hi.
  specialize (H12 i Hi). specialize (H23 i Hi). lra.
Qed.

(** X11: [minDist] from a point to a rectangle is no more than to any
    rectangle inside it that satisfies the invariant. *)
Theorem minDist_antitone (p : Point) (r1 r2 : Rect) :
  ContainsRect Dim r1 r2 = true -> rect_ok Dim r2 = true ->
  minDist Dim p r1 <= minDist Dim p r2.
Proof.
  intros Hc Hok. rewrite !minDist_sum. unfold sum_dims.
  apply sumr_le. intros i Hi. apply in_dims in Hi.
  pose proof (proj1 (ContainsRect_spec r1 r2) Hc i Hi) as H12.
  pose proof (proj1 (rect_ok_spec Dim r2) Hok i Hi) as Hinv.
  unfold minDist_term. cbv zeta. cmp_cases; nra.
Qed.

(** ** enlarge and boundingBox *)

(** X12: the bounding box of [r1] and [r2] contains both of them. *)
Theorem boundingBox_contains_both (r1 r2 : Rect) :
  wf_rect Dim r1 ->
  ContainsRect Dim (boundingBox Dim r1 r2) r1 = true /\
  ContainsRect Dim (boundingBox Dim r1 r2) r2 = true.
Proof.
  intro Hwf. rewrite !ContainsRect_spec.
  split; intros i Hi;
    destruct (boundingBox_bounds r1 r2 i Hwf Hi) as [-> ->];
    qmin_cases;
    destruct (Q.max_spec (idx (rQ r1) i) (idx (rQ r2) i)) as [[? ->]|[? ->]];
    lra.
Qed.

(** X13: the bounding box is the least such rectangle: whatever contains
    [r1] and [r2] contains their bounding box. *)
Theorem boundingBox_least (r r1 r2 : Rect) :
  wf_rect Dim r1 ->
  ContainsRect Dim r r1 = true -> ContainsRect Dim r r2 = true ->
  ContainsRect Dim r (boundingBox Dim r1 r2) = true.
Proof.
  intro Hwf. rewrite !ContainsRect_spec. intros H1 H2 i Hi.
  specialize (H1 i Hi). specialize (H2 i Hi).
  destruct (boundingBox_bounds r1 r2 i Hwf Hi) as [-> ->].
  qmin_cases;
    destruct (Q.max_spec (idx (rQ r1) i) (idx (rQ r2) i)) as [[? ->]|[? ->]];
    lra.
Qed.

(** X14: [boundingBox(r1, r2)] and [boundingBox(r2, r1)] have the same
    corners. *)
Theorem boundingBox_comm (r1 r2 : Rect) :
  wf_rect Dim r1 -> wf_rect Dim r2 ->
  wf_rect Dim (boundingBox Dim r1 r2) /\
  forall i, (i < Dim)%nat ->
    idx (rP (boundingBox Dim r1 r2)) i == idx (rP (boundingBox Dim r2 r1)) i /\
    idx (rQ (boundingBox Dim r1 r2)) i == idx (rQ (boundingBox Dim r2 r1)) i.
Proof.
  intros Hwf1 Hwf2. split.
  - apply (enlarge_spec Dim r1 r2 Hwf1).
  - intros i Hi.
    destruct (boundingBox_bounds r1 r2 i Hwf1 Hi) as [-> ->].
    destruct (boundingBox_bounds r2 r1 i Hwf2 Hi) as [-> ->].
    split; [apply Q.min_comm|apply Q.max_comm].
Qed.

(** X15: [enlarge] changes nothing when the rectangle is enlarged by itself,
    and nothing more when it is enlarged by the same rectangle again. *)
Theorem enlarge_idempotent (r1 r2 : Rect) :
  enlarge Dim r1 r1 = r1 /\
  (wf_rect Dim r1 ->
   enlarge Dim (enlarge Dim r1 r2) r2 = enlarge Dim r1 r2).
Proof.
  split.
  - apply enlarge_fixed. intros i _. lra.
  - intro Hwf. apply enlarge_fixed. intros i Hi. apply in_dims in Hi.
    destruct (enlarge_spec Dim r1 r2 Hwf) as [_ H].
    destruct (H i Hi) as [-> ->]. cmp_cases; lra.
Qed.

(** ** ToRect as a probe *)

(** X16: with a tolerance that is not negative, the rectangle of [ToRect]
    has [Dim] entries in each corner and contains its centre. *)
Theorem ToRect_contains_centre (p : Point) (tol : Q) :
  0 <= tol ->
  wf_rect Dim (ToRect Dim p tol) /\
  ContainsPoint Dim (ToRect Dim p tol) p = true.
Proof.
  intro Htol. destruct (ToRect_spec Dim p tol) as [Hwf H].
  split; [assumption|]. apply ContainsPoint_spec. intros i Hi.
  destruct (H i Hi) as [-> ->]. lra.
Qed.

(** X17: a rectangle contains the point [p] exactly when it contains the
    rectangle that [ToRect] builds around [p] with tolerance 0. *)
Theorem ContainsPoint_as_ContainsRect (r : Rect) (p : Point) :
  ContainsPoint Dim r p = ContainsRect Dim r (ToRect Dim p 0).
Proof.
  apply bool_eq_true. rewrite ContainsPoint_spec, ContainsRect_spec.
  destruct (ToRect_spec Dim p 0) as [_ H].
  split; intros Hc i Hi; specialize (Hc i Hi); destruct (H i Hi) as [EP EQ].
  - rewrite EP, EQ. lra.
  - rewrite EP, EQ in Hc. lra.
Qed.

(** ** NewRect, size and margin *)

Lemma NewRect_success p lengths r :
  wf_point Dim lengths -> NewRect Dim p lengths = (r, None) ->
  rP r = p /\
  forall i, (i < Dim)%nat ->
    0 < idx lengths i /\ idx (rQ r) i = idx lengths i + idx p i.
Proof.
  intros Hwf E. unfold wf_point in Hwf.
  pose proof (NewRect_prefix p lengths Dim ltac:(lia)) as H.
  unfold NewRect in E. rewrite E in H.
  destruct H as [HP [_ [Hlo _]]]. split; assumption.
Qed.

(** X21: [margin] is not negative under the invariant, and the margin of a
    rectangle is at least that of any rectangle inside it that satisfies the
    invariant. *)
Theorem margin_monotone (r1 r2 : Rect) :
  ContainsRect Dim r1 r2 = true -> rect_ok Dim r2 = true ->
  0 <= margin Dim r2 /\ margin Dim r2 <= margin Dim r1.
Proof.
  intros Hc Hok. rewrite !margin_sum. unfold sum_dims.
  assert (H0 : 0 <= sumr (fun i => idx (rQ r2) i - idx (rP r2) i) (seq 0 Dim)).
  { apply sumr_nonneg. intros i Hi. apply in_dims in Hi.
    pose proof (proj1 (rect_ok_spec Dim r2) Hok i Hi). lra. }
  assert (H1 : sumr (fun i => idx (rQ r2) i - idx (rP r2) i) (seq 0 Dim) <=
               sumr (fun i => idx (rQ r1) i - idx (rP r1) i) (seq 0 Dim)).
  { apply sumr_le. intros i Hi. apply in_dims in Hi.
    pose proof (proj1 (ContainsRect_spec r1 r2) Hc i Hi). lra. }
  lra.
Qed.

(** ** Ranges of the two bounds *)


(** X23: the bounding box of [r1] and [r2] is no farther from any point
    than [r2] is, when [r2] satisfies the invariant. *)
Theorem minDist_boundingBox_second (p : Point) (r1 r2 : Rect) :
  wf_rect Dim r1 -> rect_ok Dim r2 = true ->
  minDist Dim p (boundingBox Dim r1 r2) <= minDist Dim p r2.
Proof.
  intros Hwf Hok. rewrite !minDist_sum. unfold sum_dims.
  apply sumr_le. intros i Hi. apply in_dims in Hi.
  unfold boundingBox, initBoundingBox.
  destruct (enlarge_spec Dim r1 r2 Hwf) as [_ H].
  destruct (H i Hi) as [EP EQ].
  pose proof (proj1 (rect_ok_spec Dim r2) Hok i Hi) as Hinv.
  unfold minDist_term. cbv zeta. rewrite EP, EQ.
  cmp_cases; nra.
Qed.

End MoreFacts.

(** ** The further facts on sample values *)

Lemma ContainsRect_preorder_witness :
  ContainsRect 3 cube03 cube02 = true /\
  ContainsRect 3 cube02 inner12 = true /\
  ContainsRect 3 cube03 inner12 = true.
Proof.
  split; [reflexivity|]. split; [reflexivity|].
  destruct (ContainsRect_preorder 3 cube03 cube02 inner12) as [_ H].
  apply H; reflexivity.
Defined.

Lemma ContainsRect_antisym_witness :
  ContainsRect 3 cube02 cube02 = true /\ (1 < 3)%nat /\
  idx (rP cube02) 1 == idx (rP cube02) 1 /\
  idx (rQ cube02) 1 == idx (rQ cube02) 1.
Proof.
  split; [reflexivity|]. split; [lia|].
  apply (ContainsRect_antisym 3 cube02 cube02); [reflexivity|reflexivity|lia].
Defined.

Lemma ContainsRect_ContainsPoint_witness :
  ContainsRect 3 cube02 inner12 = true /\
  ContainsPoint 3 inner12 ones3 = true /\
  ContainsPoint 3 cube02 ones3 = true.
Proof.
  split; [reflexivity|]. split; [reflexivity|].
  apply (ContainsRect_ContainsPoint 3 cube02 inner12 ones3); reflexivity.
Defined.

Lemma Intersect_monotone_witness :
  ContainsRect 3 cube03 cube02 = true /\
  Intersect 3 cube02 cube13 = true /\
  Intersect 3 cube03 cube13 = true.
Proof.
  split; [reflexivity|]. split; [reflexivity|].
  apply (Intersect_monotone 3 cube03 cube02 cube13); reflexivity.
Defined.

Lemma minDist_antitone_witness :
  ContainsRect 3 cube02 inner12 = true /\ rect_ok 3 inner12 = true /\
  minDist 3 fives3 cube02 <= minDist 3 fives3 inner12.
Proof.
  split; [reflexivity|]. split; [reflexivity|].
  apply (minDist_antitone 3 fives3 cube02 inner12); reflexivity.
Defined.

Lemma boundingBox_contains_both_witness :
  wf_rect 3 cube02 /\
  ContainsRect 3 (boundingBox 3 cube02 cube13) cube02 = true /\
  ContainsRect 3 (boundingBox 3 cube02 cube13) cube13 = true.
Proof.
  split; [split; reflexivity|].
  apply (boundingBox_contains_both 3 cube02 cube13). split; reflexivity.
Defined.

Lemma boundingBox_least_witness :
  wf_rect 3 cube02 /\
  ContainsRect 3 cube03 cube02 = true /\ ContainsRect 3 cube03 cube13 = true /\
  ContainsRect 3 cube03 (boundingBox 3 cube02 cube13) = true.
Proof.
  split; [split; reflexivity|]. split; [reflexivity|]. split; [reflexivity|].
  apply (boundingBox_least 3 cube03 cube02 cube13);
    [split; reflexivity|reflexivity|reflexivity].
Defined.

Lemma boundingBox_comm_witness :
  wf_rect 3 cube02 /\ wf_rect 3 cube13 /\
  wf_rect 3 (boundingBox 3 cube02 cube13) /\
  idx (rP (boundingBox 3 cube02 cube13)) 0 ==
  idx (rP (boundingBox 3 cube13 cube02)) 0.
Proof.
  split; [split; reflexivity|]. split; [split; reflexivity|].
  destruct (boundingBox_comm 3 cube02 cube13) as [Hwf H];
    [split; reflexivity|split; reflexivity|].
  split; [exact Hwf|]. apply (H 0%nat). lia.
Defined.

Lemma enlarge_idempotent_witness :
  wf_rect 3 cube02 /\
  enlarge 3 (enlarge 3 cube02 cube13) cube13 = enlarge 3 cube02 cube13.
Proof.
  split; [split; reflexivity|].
  destruct (enlarge_idempotent 3 cube02 cube13) as [_ H].
  apply H. split; reflexivity.
Defined.

Lemma ToRect_contains_centre_witness :
  0 <= 1 /\ wf_rect 3 (ToRect 3 ones3 1) /\
  ContainsPoint 3 (ToRect 3 ones3 1) ones3 = true.
Proof.
  split; [qle_compute|].
  apply (ToRect_contains_centre 3 ones3 1). qle_compute.
Defined.

Lemma margin_monotone_witness :
  ContainsRect 3 cube02 inner12 = true /\ rect_ok 3 inner12 = true /\
  0 <= margin 3 inner12 /\ margin 3 inner12 <= margin 3 cube02.
Proof.
  split; [reflexivity|]. split; [reflexivity|].
  apply (margin_monotone 3 cube02 inner12); reflexivity.
Defined.


Lemma minDist_boundingBox_second_witness :
  wf_rect 3 cube02 /\ rect_ok 3 cube13 = true /\
  minDist 3 fives3 (boundingBox 3 cube02 cube13) <= minDist 3 fives3 cube13.
Proof.
  split; [split; reflexivity|]. split; [reflexivity|].
  apply (minDist_boundingBox_second 3 fives3 cube02 cube13);
    [split; reflexivity|reflexivity].
Defined.

(** * Facts on binary64 *)

Module Binary64Facts.

Import PrimFloat.
Local Open Scope float_scope.

Lemma fold_left_pointwise {A : Type} (F G : A -> nat -> A) (l : list nat) :
  (forall a i, F a i = G a i) ->
  forall a, fold_left F l a = fold_left G l a.
Proof.
  intro H. induction l as [|x l IH]; intro a; simpl; [reflexivity|].
  rewrite H. apply IH.
Qed.

(** Inside the rectangle every turn of the loop of [minDist] adds 0. *)
Lemma minDist_loop_inside (p : Binary64.Point) (r : Binary64.Rect)
  (l : list nat) :
  Binary64.ContainsPoint_loop r p l = true ->
  fold_left
    (fun sum i =>
       let pi := Binary64.idx p i in
       if pi <? Binary64.idx (Binary64.rP r) i then
         let d := pi - Binary64.idx (Binary64.rP r) i in sum + d * d
       else if Binary64.idx (Binary64.rQ r) i <? pi then
         let d := pi - Binary64.idx (Binary64.rQ r) i in sum + d * d
       else sum + 0)
    l 0 = 0.
Proof.
  induction l as [|x l IH]; simpl; [reflexivity|].
  destruct (Binary64.idx p x <? Binary64.idx (Binary64.rP r) x);
    [discriminate|].
  destruct (Binary64.idx (Binary64.rQ r) x <? Binary64.idx p x);
    [discriminate|].
  simpl. intro H. change (0 + 0) with 0. apply IH, H.
Qed.

(** C2 (amended): [minDist] is the sum, over the dimensions in increasing
    order and in binary64, of the squared gap to the boundary that [p_i]
    lies beyond (0 where it lies within), and it is 0 whenever
    [ContainsPoint] holds, the boundary included. *)
Theorem minDist_gap_sum (Dim : nat) (p : Binary64.Point) (r : Binary64.Rect) :
  Binary64.minDist Dim p r = Binary64.spec_min_dist Dim p r /\
  (Binary64.ContainsPoint Dim r p = true -> Binary64.minDist Dim p r = 0).
Proof.
  split.
  - unfold Binary64.minDist, Binary64.spec_min_dist.
    apply fold_left_pointwise. intros s i.
    unfold Binary64.spec_gap. cbv zeta.
    destruct (Binary64.idx p i <? Binary64.idx (Binary64.rP r) i);
      [reflexivity|].
    destruct (Binary64.idx (Binary64.rQ r) i <? Binary64.idx p i);
      reflexivity.
  - unfold Binary64.ContainsPoint, Binary64.minDist.
    apply minDist_loop_inside.
Qed.

Lemma minDist_gap_sum_witness :
  Binary64.ContainsPoint 3 Binary64.cube02 [1; 2; 0] = true /\
  Binary64.minDist 3 [1; 2; 0] Binary64.cube02 = 0.
Proof.
  split; [reflexivity|].
  apply (minDist_gap_sum 3 [1; 2; 0] Binary64.cube02). reflexivity.
Defined.

(** C2 as stated fails: the point (2^-600, 0, 0) is outside the box that is
    the origin, and its squared gap 2^-1200 underflows to 0. *)
Lemma minDist_underflow :
  Binary64.rect_ok 3 Binary64.cube00 = true /\
  Binary64.minDist 3 Binary64.close_point Binary64.cube00 = 0 /\
  Binary64.ContainsPoint 3 Binary64.cube00 Binary64.close_point = false.
Proof.
  repeat split; vm_compute; reflexivity.
Qed.

(** C1: at the point (2^52 + 2, 0, 0) and the box
    [2^52, 2^52 + 3] x [0,0] x [0,0] the computed midpoint of the first
    dimension is the point's coordinate, [rm] and [rM] are both the low
    face, and [minMaxDist] returns 4.  The least candidate of the two-pass
    algorithm with opposite faces is 1, whichever face is called the
    nearer one.  At the point (0, 3, 3) and the box
    [0, 2^30] x [0,0] x [0,0], [minMaxDist] returns 0, where the formula
    of its own comment gives 18. *)
Theorem minMaxDist_same_face_at_midpoint :
  Binary64.rect_ok 3 Binary64.mid_box = true /\
  Binary64.idx Binary64.mid_point 0 = Binary64.spec_mid Binary64.mid_box 0 /\
  Binary64.rm Binary64.mid_point Binary64.mid_box 0 =
    Binary64.rM Binary64.mid_point Binary64.mid_box 0 /\
  Binary64.minMaxDist 3 Binary64.mid_point Binary64.mid_box = 4 /\
  (forall tie,
     Binary64.spec_min_max_dist 3 tie Binary64.mid_point Binary64.mid_box
     = Some 1) /\
  Binary64.minMaxDist 3 Binary64.slab_point Binary64.slab_box = 0 /\
  Binary64.minMaxDist_by_definition 3 Binary64.slab_point Binary64.slab_box
  = Some 18.
Proof.
  split; [reflexivity|]. split; [vm_compute; reflexivity|].
  split; [vm_compute; reflexivity|]. split; [vm_compute; reflexivity|].
  split; [|split; vm_compute; reflexivity].
  intro tie. cbv.
  destruct (tie 0%nat), (tie 1%nat), (tie 2%nat); reflexivity.
Qed.

(** C3: at the point (0, 3, 3) and the box [0, 2^30] x [0,0] x [0,0] the
    invariant holds, [minDist] is 18, and [minMaxDist] is 0: the sum [S] is
    2^60 + 9 + 9, which rounds to 2^60, and the first candidate is
    [S - 2^60 + 0]; the formula of the comment inside [minMaxDist] gives
    18.  At the point (2^600, 0, 0) and the box that is the
    origin [minDist] is infinite and [minMaxDist] is [math.MaxFloat64]. *)
Theorem minMaxDist_below_minDist :
  Binary64.rect_ok 3 Binary64.slab_box = true /\
  Binary64.minDist 3 Binary64.slab_point Binary64.slab_box = 18 /\
  Binary64.minMaxDist_S 3 Binary64.slab_point Binary64.slab_box = 0x1p+60 /\
  Binary64.minMaxDist 3 Binary64.slab_point Binary64.slab_box = 0 /\
  Binary64.minMaxDist_by_definition 3 Binary64.slab_point Binary64.slab_box
  = Some 18 /\
  Binary64.rect_ok 3 Binary64.cube00 = true /\
  Binary64.minDist 3 Binary64.far_point Binary64.cube00 = infinity /\
  Binary64.minMaxDist 3 Binary64.far_point Binary64.cube00
  = Binary64.MaxFloat64.
Proof.
  repeat split; vm_compute; reflexivity.
Qed.

(** C6 (amended): in the three dimensions that the source documents,
    [margin] is [2^(D-1)] times the sum of the extents; the multiplier is
    the literal [4.0]. *)
Theorem margin_three_dimensions (r : Binary64.Rect) :
  Binary64.margin 3 r = Binary64.spec_margin 3 r.
Proof.
  unfold Binary64.margin, Binary64.spec_margin.
  change (Binary64.pow2 2) with 4. reflexivity.
Qed.

(** C6 as stated fails: the multiplier does not follow the dimension.  With
    [Dim = 2] the square [0,2] x [0,2] gets margin 16, where
    [2^(D-1)] times the sum is 8. *)
Lemma margin_literal_four :
  Binary64.margin 2 Binary64.square02 = 16 /\
  Binary64.spec_margin 2 Binary64.square02 = 8.
Proof.
  split; vm_compute; reflexivity.
Qed.

End Binary64Facts.

(** * Point arithmetic and probes *)

Section PointFacts.

Variable Dim : nat.

(** X1: [Dot] does not depend on the order of its arguments. *)
Theorem Dot_comm (p q : Point) : Dot Dim p q == Dot Dim q p.
Proof.
  rewrite !Dot_sum. unfold sum_dims. apply sumr_eq. intros i _. ring.
Qed.

(** X2: the value of which [Norm] takes the square root, [p.Dot(p)], is
    never negative, and it is 0 for the zero vector. *)
Theorem Norm_radicand_nonneg (p : Point) :
  0 <= Norm_radicand Dim p /\
  ((forall i, (i < Dim)%nat -> idx p i == 0) -> Norm_radicand Dim p == 0).
Proof.
  unfold Norm_radicand. rewrite Dot_sum. unfold sum_dims.
  assert (Hnn : forall i, In i (seq 0 Dim) -> 0 <= idx p i * idx p i)
    by (intros; apply square_nonneg).
  split; [apply sumr_nonneg; assumption|].
  intro H. apply sumr_zero_iff; [assumption|].
  intros i Hi. rewrite (H i (proj1 (in_dims Dim i) Hi)). ring.
Qed.

(** X3: [Add] and [Sub] return arrays of [Dim] entries; [p.Add(q)] and
    [q.Add(p)] agree in every coordinate, and every coordinate of
    [p.Sub(p)] is 0. *)
Theorem Add_comm_Sub_self (p q : Point) :
  wf_point Dim (Add Dim p q) /\ wf_point Dim (Sub Dim p q) /\
  forall i, (i < Dim)%nat ->
    idx (Add Dim p q) i == idx (Add Dim q p) i /\
    idx (Sub Dim p p) i == 0.
Proof.
  destruct (Add_spec Dim p q) as [HA Ha].
  destruct (Add_spec Dim q p) as [_ Ha'].
  destruct (Sub_spec Dim p q) as [HS _].
  destruct (Sub_spec Dim p p) as [_ Hs].
  split; [assumption|]. split; [assumption|].
  intros i Hi. rewrite (Ha i Hi), (Ha' i Hi), (Hs i Hi). split; ring.
Qed.

(** X4: the value of which [Dist] takes the square root is the same for
    [(p, q)] and [(q, p)], is never negative, and is 0 when the two points
    agree in every coordinate. *)
Theorem Dist_radicand_symmetric (p q : Point) :
  Dist_radicand Dim p q == Dist_radicand Dim q p /\
  0 <= Dist_radicand Dim p q /\
  ((forall i, (i < Dim)%nat -> idx p i == idx q i) ->
   Dist_radicand Dim p q == 0).
Proof.
  rewrite !Dist_radicand_sum. unfold sum_dims.
  assert (Hnn : forall i, In i (seq 0 Dim) ->
                  0 <= (idx p i - idx q i) * (idx p i - idx q i))
    by (intros; apply square_nonneg).
  split; [apply sumr_eq; intros i _; ring|].
  split; [apply sumr_nonneg; assumption|].
  intro H. apply sumr_zero_iff; [assumption|].
  intros i Hi. rewrite (H i (proj1 (in_dims Dim i) Hi)). ring.
Qed.

(** X18: a rectangle that has [p] strictly inside it in every dimension
    intersects the probe [ToRect] of [p], for every tolerance that is not
    negative. *)
Theorem probe_finds_interior (r : Rect) (p : Point) (tol : Q) :
  (forall i, (i < Dim)%nat ->
     idx (rP r) i < idx p i /\ idx p i < idx (rQ r) i) ->
  0 <= tol ->
  Intersect Dim r (ToRect Dim p tol) = true.
Proof.
  intros Hin Htol. apply Intersect_spec. intros i Hi.
  specialize (Hin i Hi).
  destruct (ToRect_spec Dim p tol) as [_ H]. destruct (H i Hi) as [-> ->].
  lra.
Qed.

(** X19: a rectangle that [NewRect] returns without error contains its
    corner [p] and the opposite corner [p.Add(lengths)]. *)
Theorem NewRect_contains_corners (p lengths : Point) (r : Rect) :
  wf_point Dim lengths -> NewRect Dim p lengths = (r, None) ->
  ContainsPoint Dim r p = true /\
  ContainsPoint Dim r (Add Dim p lengths) = true.
Proof.
  intros Hwf E. destruct (NewRect_success Dim p lengths r Hwf E) as [HP H].
  destruct (Add_spec Dim p lengths) as [_ Ha].
  split; apply ContainsPoint_spec; intros i Hi;
    destruct (H i Hi) as [Hpos ->]; rewrite HP, ?(Ha i Hi); lra.
Qed.

End PointFacts.

Lemma Norm_radicand_nonneg_witness : Norm_radicand 3 origin3 == 0.
Proof.
  destruct (Norm_radicand_nonneg 3 origin3) as [_ H]. apply H.
  intros i _. destruct i as [|[|[|i]]]; try reflexivity.
  destruct i; reflexivity.
Defined.

Lemma Add_comm_Sub_self_witness :
  (0 < 3)%nat /\
  idx (Add 3 threes3 ones3) 0 == idx (Add 3 ones3 threes3) 0 /\
  idx (Sub 3 threes3 threes3) 0 == 0.
Proof.
  split; [lia|].
  destruct (Add_comm_Sub_self 3 threes3 ones3) as [_ [_ H]]. apply H. lia.
Defined.

Lemma Dist_radicand_symmetric_witness : Dist_radicand 3 ones3 ones3 == 0.
Proof.
  destruct (Dist_radicand_symmetric 3 ones3 ones3) as [_ [_ H]]. apply H.
  intros i _. reflexivity.
Defined.

Lemma probe_finds_interior_witness :
  0 <= 0 /\ Intersect 3 cube02 (ToRect 3 ones3 0) = true.
Proof.
  split; [qle_compute|].
  apply (probe_finds_interior 3 cube02 ones3 0); [|qle_compute].
  intros i Hi. destruct i as [|[|[|i]]]; try (split; reflexivity).
  exfalso; lia.
Defined.

Lemma NewRect_contains_corners_witness :
  wf_point 3 twos3 /\
  NewRect 3 ones3 twos3 = (fst (NewRect 3 ones3 twos3), None) /\
  ContainsPoint 3 (fst (NewRect 3 ones3 twos3)) ones3 = true /\
  ContainsPoint 3 (fst (NewRect 3 ones3 twos3)) (Add 3 ones3 twos3) = true.
Proof.
  split; [reflexivity|]. split; [reflexivity|].
  apply (NewRect_contains_corners 3 ones3 twos3); reflexivity.
Defined.
